(** * pkg/hook/hook.go: the hook runner of git-sync

    A shallow embedding of [hookData] (the one-slot mailbox between the
    producer and the consumer), of [HookRunner.Run] (the consumer loop),
    of [sendCompletedOnceMessageIfApplicable] and of [WaitForCompletion],
    followed by the properties of the runner.

    Go channels are modelled by their buffer, capacity and closed flag.
    Goroutines are interleaved by an explicit schedule: producers (inside
    [Send]), the goroutine inside [Run], and callers of
    [WaitForCompletion] each take one atomic step at a time.  The
    properties are stated over every schedule. *)

From stdpp Require Import gmap strings list.
From Stdlib Require Import ZArith.

Local Open Scope string_scope.
Local Open Scope nat_scope.
Local Open Scope list_scope.

(** Go's [error] values are represented by their message. *)
Definition error := string.

(** What an operation that may suspend or panic does at a given state. *)
Inductive outcome (A : Type) : Type :=
| Done (a : A)
| Blocks
| Panics.
Arguments Done {A} a.
Arguments Blocks {A}.
Arguments Panics {A}.

(** ** Channels *)

Module Chan.

Record chan (A : Type) : Type := Mk {
  buf : list A;      (* values sent and not yet received, oldest first *)
  cap : nat;         (* the size given to make *)
  closed : bool;
}.
Arguments Mk {A} buf cap closed.
Arguments buf {A} c.
Arguments cap {A} c.
Arguments closed {A} c.

(** [make(chan A, n)] *)
Definition make {A} (n : nat) : chan A := Mk [] n false.

(** [c <- v], without a receiver parked on [c] *)
Definition send {A} (c : chan A) (v : A) : outcome (chan A) :=
  if closed c then Panics
  else if decide (length (buf c) < cap c) then Done (Mk (buf c ++ [v]) (cap c) false)
  else Blocks.

(** [v, ok := <-c]; a closed and drained channel yields the zero value
    and [ok = false] *)
Definition recv {A} (zero : A) (c : chan A) : outcome (A * bool * chan A) :=
  match buf c with
  | v :: rest => Done (v, true, Mk rest (cap c) (closed c))
  | [] => if closed c then Done (zero, false, c) else Blocks
  end.

(** [close(c)] *)
Definition close {A} (c : chan A) : outcome (chan A) :=
  if closed c then Panics else Done (Mk (buf c) (cap c) true).

(** [select { case c <- v: default: }] *)
Definition select_send_default {A} (c : chan A) (v : A) : outcome (chan A) :=
  match send c v with
  | Blocks => Done c
  | o => o
  end.

End Chan.

(** ** hookData *)

(** The mutex makes [get] and [set] atomic; each is one step here. *)
Record hookData : Type := {
  ch : Chan.chan unit;
  hash : string;
}.

Definition NewHookData : hookData :=
  {| ch := Chan.make 1; hash := "" |}.

Definition events (d : hookData) : Chan.chan unit := ch d.

Definition get (d : hookData) : string := hash d.

Definition set (d : hookData) (newHash : string) : hookData :=
  {| ch := ch d; hash := newHash |}.

(** The select of [send]: a non-blocking write of one notification, which
    is dropped when the channel is full. *)
Definition notify (d : hookData) : outcome hookData :=
  match Chan.select_send_default (ch d) tt with
  | Done c => Done {| ch := c; hash := hash d |}
  | Blocks => Blocks
  | Panics => Panics
  end.

Definition send (d : hookData) (newHash : string) : outcome hookData :=
  notify (set d newHash).

(** A burst of [send] calls, none of them consumed in between. *)
Fixpoint sends (d : hookData) (hs : list string) : outcome hookData :=
  match hs with
  | [] => Done d
  | h :: hs =>
      match send d h with
      | Done d' => sends d' hs
      | o => o
      end
  end.

(** The shape of every slot made by [NewHookData]: nothing in this package
    closes [ch], and its capacity is one. *)
Definition slot_ok (d : hookData) : Prop :=
  Chan.closed (ch d) = false ∧ Chan.cap (ch d) = 1 ∧ length (Chan.buf (ch d)) ≤ 1.

(** ** Hook *)

(** The [Hook] interface.  A hook is a Go object with its own mutable
    state: [Do] returns the error ([None] is [nil]) and the hook as the
    call left it. *)
Class Hook (Ctx H : Type) : Type := {
  Name : H → string;
  Do : H → Ctx → string → option error * H;
}.

(** ** The metrics registry and the counter *)

Definition hookRunCount_name : string := "git_sync_hook_run_count_total".

(** [prometheus.Register] on the default registry: a collector that is
    already registered is refused (AlreadyRegisteredError). *)
Definition Register (reg : gset string) (fqName : string) : option (gset string) :=
  if decide (fqName ∈ reg) then None else Some ({[fqName]} ∪ reg).

(** [prometheus.MustRegister]: panics when [Register] returns an error. *)
Definition MustRegister (reg : gset string) (fqName : string) : outcome (gset string) :=
  match Register reg fqName with
  | Some reg' => Done reg'
  | None => Panics
  end.

(** [hookRunCount.WithLabelValues(name, status).Inc()] *)
Definition updateHookRunCountMetric
    (m : gmap (string * string) nat) (name status : string) : gmap (string * string) nat :=
  <[(name, status) := S (default 0 (m !! (name, status)))]> m.

(** ** HookRunner *)

Record HookRunner (H : Type) : Type := {
  hook : H;
  backoff : Z;                                (* time.Duration, nanoseconds *)
  data : hookData;
  logger : list (error * string);             (* what Logger.Error was given *)
  hasCompletedOnce : option (Chan.chan bool); (* None is the nil channel *)
}.
Arguments hook {H} _.
Arguments backoff {H} _.
Arguments data {H} _.
Arguments logger {H} _.
Arguments hasCompletedOnce {H} _.

Definition NewHookRunner {H} (hook : H) (backoff : Z) (data : hookData)
    (log : list (error * string)) (hasSucceededOnce : option (Chan.chan bool)) : HookRunner H :=
  {| hook := hook; backoff := backoff; data := data; logger := log;
     hasCompletedOnce := hasSucceededOnce |}.

(** [HookRunner.Send] *)
Definition Send {H} (r : HookRunner H) (hash : string) : outcome (HookRunner H) :=
  match send (data r) hash with
  | Done d => Done {| hook := hook r; backoff := backoff r; data := d; logger := logger r;
                      hasCompletedOnce := hasCompletedOnce r |}
  | Blocks => Blocks
  | Panics => Panics
  end.

(** The result of [WaitForCompletion] once the channel has delivered [b]. *)
Definition completion_error (b : bool) : option error :=
  if b then None else Some "exechook completed with error".

(** [HookRunner.WaitForCompletion]: the returned error and the runner
    with the channel as the receive left it. *)
Definition WaitForCompletion {H} (r : HookRunner H) : outcome (option error * HookRunner H) :=
  match hasCompletedOnce r with
  | None => Done (Some "HookRunner.WaitForCompletion called on async runner", r)
  | Some c =>
      match Chan.recv false c with
      | Done (exechookChannelFinishedSuccessfully, _, c') =>
          Done (completion_error exechookChannelFinishedSuccessfully,
                {| hook := hook r; backoff := backoff r; data := data r; logger := logger r;
                   hasCompletedOnce := Some c' |})
      | Blocks => Blocks
      | Panics => Panics
      end
  end.

(** ** The goroutine inside Run *)

(** Where the goroutine that called [Run] stands. *)
Inductive point : Type :=
| AtRegister                (* prometheus.MustRegister(hookRunCount) *)
| AtRange                   (* for range r.data.events() *)
| AtGet                     (* hash := r.data.get(); if hash == lastHash *)
| AtDo (hash : string)      (* r.hook.Do(ctx, hash) and the branch on err *)
| AtReport (b : bool)       (* sendCompletedOnceMessageIfApplicable(b): the nil test and the send *)
| AtClose (b : bool)        (* close(r.hasCompletedOnce) *)
| AtSleep                   (* time.Sleep(r.backoff) *)
| Exited                    (* runtime.Goexit() *)
| Returned                  (* the range loop ended: Run returned *)
| Panicked.                 (* an unrecovered panic: the process is down *)

Global Instance point_eq_dec : EqDecision point.
Proof. solve_decision. Defined.

(** What the goroutine did, in the order it did it. *)
Inductive event : Type :=
| EvDo (hash : string) (err : option error)   (* Do(ctx, hash) returned err *)
| EvSleep (d : Z)                             (* slept for d *)
| EvSend (b : bool)                           (* hasCompletedOnce <- b went through *)
| EvClose.                                    (* close(hasCompletedOnce) *)

Global Instance event_eq_dec : EqDecision event.
Proof. solve_decision. Defined.

Record process (H : Type) : Type := {
  runner : HookRunner H;
  lastHash : string;                          (* the local variable of Run *)
  at_ : point;
  registry : gset string;                     (* prometheus.DefaultRegisterer *)
  hookRunCount : gmap (string * string) nat;  (* the package-level counter *)
  trace : list event;
  waits : list (option error);                (* what the WaitForCompletion calls returned *)
}.
Arguments runner {H} _.
Arguments lastHash {H} _.
Arguments at_ {H} _.
Arguments registry {H} _.
Arguments hookRunCount {H} _.
Arguments trace {H} _.
Arguments waits {H} _.

Section Run.
Context {Ctx H : Type} `{!Hook Ctx H}.
Variable ctx : Ctx.

(** Field updates. *)
Definition set_runner (s : process H) (r : HookRunner H) : process H :=
  {| runner := r; lastHash := lastHash s; at_ := at_ s; registry := registry s;
     hookRunCount := hookRunCount s; trace := trace s; waits := waits s |}.

Definition set_lastHash (s : process H) (h : string) : process H :=
  {| runner := runner s; lastHash := h; at_ := at_ s; registry := registry s;
     hookRunCount := hookRunCount s; trace := trace s; waits := waits s |}.

Definition goto (s : process H) (p : point) : process H :=
  {| runner := runner s; lastHash := lastHash s; at_ := p; registry := registry s;
     hookRunCount := hookRunCount s; trace := trace s; waits := waits s |}.

Definition set_registry (s : process H) (reg : gset string) : process H :=
  {| runner := runner s; lastHash := lastHash s; at_ := at_ s; registry := reg;
     hookRunCount := hookRunCount s; trace := trace s; waits := waits s |}.

Definition count (s : process H) (name status : string) : process H :=
  {| runner := runner s; lastHash := lastHash s; at_ := at_ s; registry := registry s;
     hookRunCount := updateHookRunCountMetric (hookRunCount s) name status;
     trace := trace s; waits := waits s |}.

Definition record (s : process H) (e : event) : process H :=
  {| runner := runner s; lastHash := lastHash s; at_ := at_ s; registry := registry s;
     hookRunCount := hookRunCount s; trace := trace s ++ [e]; waits := waits s |}.

Definition returned (s : process H) (err : option error) : process H :=
  {| runner := runner s; lastHash := lastHash s; at_ := at_ s; registry := registry s;
     hookRunCount := hookRunCount s; trace := trace s; waits := waits s ++ [err] |}.

Definition set_hook (r : HookRunner H) (hk : H) : HookRunner H :=
  {| hook := hk; backoff := backoff r; data := data r; logger := logger r;
     hasCompletedOnce := hasCompletedOnce r |}.

Definition set_data (r : HookRunner H) (d : hookData) : HookRunner H :=
  {| hook := hook r; backoff := backoff r; data := d; logger := logger r;
     hasCompletedOnce := hasCompletedOnce r |}.

Definition set_chan (r : HookRunner H) (c : Chan.chan bool) : HookRunner H :=
  {| hook := hook r; backoff := backoff r; data := data r; logger := logger r;
     hasCompletedOnce := Some c |}.

(** [r.logger.Error(err, msg)] *)
Definition logger_Error (r : HookRunner H) (err : error) (msg : string) : HookRunner H :=
  {| hook := hook r; backoff := backoff r; data := data r;
     logger := logger r ++ [(err, msg)]; hasCompletedOnce := hasCompletedOnce r |}.

(** [sendCompletedOnceMessageIfApplicable(b)] up to and including the
    send.  With a nil channel it returns to its caller, which sleeps
    after a failure and breaks out of the retry loop after a success. *)
Definition sendCompletedOnceMessageIfApplicable
    (s : process H) (completedSuccessfully : bool) : outcome (process H) :=
  match hasCompletedOnce (runner s) with
  | None => Done (goto s (if completedSuccessfully then AtRange else AtSleep))
  | Some c =>
      match Chan.send c completedSuccessfully with
      | Done c' =>
          Done (goto (record (set_runner s (set_chan (runner s) c'))
                             (EvSend completedSuccessfully))
                     (AtClose completedSuccessfully))
      | Blocks => Blocks
      | Panics => Panics
      end
  end.

(** The rest of it: [close(r.hasCompletedOnce); runtime.Goexit()]. *)
Definition close_and_Goexit (s : process H) : outcome (process H) :=
  match hasCompletedOnce (runner s) with
  | None => Panics
  | Some c =>
      match Chan.close c with
      | Done c' => Done (goto (record (set_runner s (set_chan (runner s) c')) EvClose) Exited)
      | Blocks => Blocks
      | Panics => Panics
      end
  end.

(** One atomic step of the goroutine that called [Run]. *)
Definition run_step (s : process H) : outcome (process H) :=
  let r := runner s in
  match at_ s with
  | AtRegister =>
      match MustRegister (registry s) hookRunCount_name with
      | Done reg => Done (goto (set_registry s reg) AtRange)
      | Blocks => Blocks
      | Panics => Panics
      end
  | AtRange =>
      match Chan.recv () (events (data r)) with
      | Done (_, true, c) =>
          Done (goto (set_runner s (set_data r {| ch := c; hash := hash (data r) |})) AtGet)
      | Done (_, false, _) => Done (goto s Returned)
      | Blocks => Blocks
      | Panics => Panics
      end
  | AtGet =>
      let hash := get (data r) in
      if decide (hash = lastHash s) then Done (goto s AtRange)
      else Done (goto s (AtDo hash))
  | AtDo hash =>
      let '(err, hk) := Do (hook r) ctx hash in
      let s := record (set_runner s (set_hook r hk)) (EvDo hash err) in
      match err with
      | Some e =>
          let s := set_runner s (logger_Error (runner s) e "hook failed") in
          let s := count s (Name (hook (runner s))) "error" in
          Done (goto s (AtReport false))
      | None =>
          let s := count s (Name (hook (runner s))) "success" in
          let s := set_lastHash s hash in
          Done (goto s (AtReport true))
      end
  | AtReport b => sendCompletedOnceMessageIfApplicable s b
  | AtClose _ => close_and_Goexit s
  | AtSleep => Done (goto (record s (EvSleep (backoff r))) AtGet)
  | Exited | Returned | Panicked => Blocks
  end.

(** ** The process: producer, runner and waiter interleaved *)

(** [Send] takes the mutex for [set] and releases it before the select,
    so other goroutines may run between its two halves: [Producer] is a
    [Send] that nothing interleaves with, [Storing] and [Signalling] are
    the halves of one that is interleaved. *)
Inductive action : Type :=
| Producer (hash : string)   (* some goroutine calls r.Send(hash) *)
| Storing (hash : string)    (* some goroutine inside r.Send(hash) does d.set(hash) *)
| Signalling                 (* some goroutine inside r.Send does the select *)
| Runner                     (* the Run goroutine takes its next step *)
| Waiter.                    (* some goroutine is inside r.WaitForCompletion() *)

(** A receiver parked on [hasCompletedOnce] while the runner is at its
    send takes the value from the sender directly; this is the only
    way a send on an unbuffered channel goes through. *)
Definition handoff (s : process H) : process H :=
  match at_ s with
  | AtReport b => goto (returned (record s (EvSend b)) (completion_error b)) (AtClose b)
  | _ => s
  end.

(** A step that cannot be taken yet leaves the state as it is (the
    goroutine stays suspended); a panic takes the whole process down. *)
Definition step (s : process H) (a : action) : process H :=
  if decide (at_ s = Panicked) then s
  else match a with
       | Producer h =>
           match Send (runner s) h with
           | Done r => set_runner s r
           | Blocks => s
           | Panics => goto s Panicked
           end
       | Storing h => set_runner s (set_data (runner s) (set (data (runner s)) h))
       | Signalling =>
           match notify (data (runner s)) with
           | Done d => set_runner s (set_data (runner s) d)
           | Blocks => s
           | Panics => goto s Panicked
           end
       | Runner =>
           match run_step s with
           | Done s' => s'
           | Blocks => s
           | Panics => goto s Panicked
           end
       | Waiter =>
           match WaitForCompletion (runner s) with
           | Done (err, r) => returned (set_runner s r) err
           | Blocks => handoff s
           | Panics => goto s Panicked
           end
       end.

Definition exec (s : process H) (sched : list action) : process H :=
  foldl step s sched.

(** The goroutine entering [Run]: [var lastHash string] is the empty
    string. *)
Definition Run (r : HookRunner H) (reg : gset string)
    (counts : gmap (string * string) nat) : process H :=
  {| runner := r; lastHash := ""; at_ := AtRegister; registry := reg;
     hookRunCount := counts; trace := []; waits := [] |}.

(** [Run] called in a process that has registered nothing yet. *)
Definition start (r : HookRunner H) : process H := Run r ∅ ∅.

End Run.

(** ** Projections of a trace *)

Definition outcomes (t : list event) : list bool :=
  omap (λ e, match e with EvDo _ err => Some (bool_decide (err = None)) | _ => None end) t.

Definition executions (t : list event) : list string :=
  omap (λ e, match e with EvDo h _ => Some h | _ => None end) t.

Definition sleeps (t : list event) : list Z :=
  omap (λ e, match e with EvSleep d => Some d | _ => None end) t.

Definition chan_events (t : list event) : list event :=
  omap (λ e, match e with EvSend _ | EvClose => Some e | _ => None end) t.

(** ** Hooks, runners and schedules for the worked examples *)

(** A hook for the examples: it replays a script of results, one per
    call, and succeeds once the script is over. *)
Record scripted : Type := { sname : string; script : list (option error) }.

Global Instance scripted_hook : Hook unit scripted := {|
  Name := sname;
  Do hk _ _ :=
    match script hk with
    | [] => (None, hk)
    | e :: rest => (e, {| sname := sname hk; script := rest |})
    end
|}.

Definition exechook (results : list (option error)) : scripted :=
  {| sname := "exechook"; script := results |}.

(** Backoff 10, no completion channel. *)
Definition async_runner (results : list (option error)) : HookRunner scripted :=
  NewHookRunner (exechook results) 10 NewHookData [] None.

(** Backoff 10, completion channel [make(chan bool, 1)]. *)
Definition sync_runner (results : list (option error)) : HookRunner scripted :=
  NewHookRunner (exechook results) 10 NewHookData [] (Some (Chan.make 1)).

(** [Send(h)], then the runner registers, receives and fetches. *)
Definition until_Do (h : string) : list action := [Producer h; Runner; Runner; Runner].





(** "abc" succeeded, the runner exited, WaitForCompletion was called. *)
Definition waited_once : list action :=
  until_Do "abc" ++ [Runner; Runner; Runner; Waiter].

Definition waited_twice : list action := waited_once ++ [Waiter].

(** "abc" was run, sent again, and fetched again. *)
Definition refetched_abc : list action :=
  until_Do "abc" ++ [Runner; Runner; Producer "abc"; Runner].

(** "h1" failed once; the runner slept, fetched it again and ran it. *)
Definition failed_then_succeeded : list action :=
  until_Do "h1" ++ [Runner; Runner; Runner; Runner; Runner; Runner].


(** Backoff 10, completion channel [make(chan bool)]. *)
Definition unbuffered_runner (results : list (option error)) : HookRunner scripted :=
  NewHookRunner (exechook results) 10 NewHookData [] (Some (Chan.make 0)).

(** "h1" was run; nobody calls WaitForCompletion. *)
Definition unwaited : list action :=
  [Producer "h1"; Runner; Runner; Runner; Runner; Runner; Producer "h2"; Runner].

(** * Properties *)

Section Facts.
Context {Ctx H : Type} `{!Hook Ctx H}.
Variable ctx : Ctx.
Implicit Types (s : process H) (r : HookRunner H) (sched : list action).

(** ** Invariants and other vocabulary of the statements *)


(** The runner with a completion channel made by [make(chan bool, n)]. *)
Definition fresh (n : nat) (c : Chan.chan bool) s : Prop :=
  c = Chan.make n ∧ trace s = [] ∧ waits s = [].

Definition sync_trace (t : list event) (b : bool) (rest : list event) : Prop :=
  ∃ h err, t = EvDo h err :: rest ∧ b = bool_decide (err = None).

Definition closed_error : option error := Some "exechook completed with error".

Definition sync_inv (n : nat) s : Prop :=
  slot_ok (data (runner s)) ∧
  ∃ c, hasCompletedOnce (runner s) = Some c ∧ Chan.cap c = n ∧
    match at_ s with
    | AtRegister => registry s = ∅ ∧ fresh n c s
    | AtRange | AtGet => fresh n c s
    | AtDo h => h ≠ lastHash s ∧ fresh n c s
    | AtReport b => c = Chan.make n ∧ waits s = [] ∧ sync_trace (trace s) b []
    | AtClose b =>
        Chan.closed c = false ∧ sync_trace (trace s) b [EvSend b] ∧
        ((Chan.buf c = [b] ∧ waits s = []) ∨
         (Chan.buf c = [] ∧ waits s = [completion_error b]))
    | Exited =>
        Chan.closed c = true ∧
        ∃ b, sync_trace (trace s) b [EvSend b; EvClose] ∧
             ((Chan.buf c = [b] ∧ waits s = []) ∨
              (Chan.buf c = [] ∧
               ∃ k, waits s = completion_error b :: replicate k closed_error))
    | AtSleep | Returned | Panicked => False
    end.

Definition fails_with (hk : H) (h : string) (e : error) (hk' : H) : Prop :=
  Do hk ctx h = (Some e, hk').

Definition succeeds_with (hk : H) (h : string) (hk' : H) : Prop :=
  Do hk ctx h = (None, hk').


(** While the stored value equals [lastHash] and nothing else is sent,
    the runner does nothing observable. *)
Definition quiet (lh : string) (t : list event) (cnt : gmap (string * string) nat) s : Prop :=
  get (data (runner s)) = lh ∧ lastHash s = lh ∧ trace s = t ∧ hookRunCount s = cnt ∧
  match at_ s with
  | AtRegister | AtRange | AtGet | Returned | Panicked => True
  | _ => False
  end.

Definition sends_only (lh : string) (a : action) : Prop :=
  ∀ h, a = Producer h ∨ a = Storing h → h = lh.

(** The steps that write the slot. *)
Definition stores (a : action) : Prop :=
  match a with
  | Producer _ | Storing _ => True
  | _ => False
  end.

(** The steps that belong to producers, and the value they leave in the
    slot. *)
Definition by_producers (a : action) : Prop :=
  match a with
  | Producer _ | Storing _ | Signalling => True
  | _ => False
  end.

Definition last_stored (h0 : string) (during : list action) : string :=
  foldl (λ h a, match a with Producer h' | Storing h' => h' | _ => h end) h0 during.





(** A second [Run] in a process where the counter is registered. *)
Definition refused (cnt : gmap (string * string) nat) s : Prop :=
  hookRunCount_name ∈ registry s ∧ trace s = [] ∧ hookRunCount s = cnt ∧
  (at_ s = AtRegister ∨ at_ s = Panicked).

(** ** Vocabulary of the further properties *)

(** The hook calls of a trace with their results, oldest first. *)
Definition attempts (t : list event) : list (string * option error) :=
  omap (λ e, match e with EvDo h err => Some (h, err) | _ => None end) t.



(** What [r.logger.Error(err, "hook failed")] is given over a trace. *)
Definition failure_log (t : list event) : list (error * string) :=
  omap (λ p, match p.2 with Some e => Some (e, "hook failed") | None => None end) (attempts t).

(** The hash of the last successful hook call of a trace, [lh] if there
    is none. *)
Definition last_success (lh : string) (t : list event) : string :=
  foldl (λ l e, match e with EvDo h None => h | _ => l end) lh t.

(** Every hook call of a trace is on a hash other than the one of the
    last success before it ([lh] at the start). *)
Fixpoint fresh_runs (lh : string) (t : list event) : Prop :=
  match t with
  | [] => True
  | EvDo h err :: rest =>
      h ≠ lh ∧ fresh_runs (match err with None => h | Some _ => lh end) rest
  | _ :: rest => fresh_runs lh rest
  end.

(** The values producers stored in the slot over a schedule. *)
Definition stored_values (sched : list action) : list string :=
  omap (λ a, match a with Producer h | Storing h => Some h | _ => None end) sched.

(** What one step leaves alone unless it is the hook call itself. *)
Definition framed s s' (a : action) : Prop :=
  hookRunCount s' = hookRunCount s ∧
  hook (runner s') = hook (runner s) ∧
  logger (runner s') = logger (runner s) ∧
  lastHash s' = lastHash s ∧
  (trace s' = trace s ∨
   ∃ e, trace s' = trace s ++ [e] ∧ match e with EvDo _ _ => False | _ => True end) ∧
  (∀ h, at_ s' = AtDo h →
     at_ s = AtDo h ∨
     (at_ s = AtGet ∧ a = Runner ∧ h = get (data (runner s)) ∧ h ≠ lastHash s)).

(** The slot of a running process: as [NewHookData] made it, and [Run]
    has not returned. *)
Definition slot_inv s : Prop :=
  slot_ok (data (runner s)) ∧ at_ s ≠ Returned.



(** [lastHash] against the trace. *)
Definition remembered s : Prop :=
  lastHash s = last_success "" (trace s) ∧
  fresh_runs "" (trace s) ∧
  ∀ h, at_ s = AtDo h → h ≠ lastHash s.

(** The hook calls against what producers stored: [stored] are the values
    stored so far. *)
Definition sent_only (stored : list string) s : Prop :=
  (∀ h, h ∈ executions (trace s) → h ∈ stored) ∧
  (∀ h, at_ s = AtDo h → h ∈ stored) ∧
  (at_ s = Panicked ∨
   (slot_inv s ∧
    (get (data (runner s)) ∈ stored ∨
     (stored = [] ∧ get (data (runner s)) = "" ∧ lastHash s = "")))).

(** The runner with a completion channel: no hook call yet, or one and
    on its way out; no sleep either way. *)
Definition one_shot s : Prop :=
  hasCompletedOnce (runner s) ≠ None ∧ sleeps (trace s) = [] ∧
  ((executions (trace s) = [] ∧
    match at_ s with
    | AtReport _ | AtClose _ | Exited | AtSleep => False
    | _ => True
    end) ∨
   (length (executions (trace s)) = 1 ∧
    match at_ s with
    | AtReport _ | AtClose _ | Exited | Panicked => True
    | _ => False
    end)).

(** A trace made of successful hook calls and of failed hook calls each
    followed by one sleep of [bo]; [after_failure] tells whether a failed
    call is waiting for its sleep. *)
Fixpoint paced (bo : Z) (after_failure : bool) (t : list event) : Prop :=
  match t with
  | [] => True
  | EvDo _ err :: rest =>
      after_failure = false ∧ paced bo (bool_decide (err ≠ None)) rest
  | EvSleep d :: rest => after_failure = true ∧ d = bo ∧ paced bo false rest
  | _ :: _ => False
  end.

(** Whether a trace ends with a failed hook call. *)
Definition ends_failed (b : bool) (t : list event) : bool :=
  foldl (λ _ e, match e with EvDo _ err => bool_decide (err ≠ None) | _ => false end) b t.

Definition pacing (bo : Z) s : Prop :=
  hasCompletedOnce (runner s) = None ∧ backoff (runner s) = bo ∧
  paced bo false (trace s) ∧
  match at_ s with
  | AtReport false | AtSleep => ends_failed false (trace s) = true
  | AtRegister | AtRange | AtGet | AtDo _ | AtReport true => ends_failed false (trace s) = false
  | _ => True
  end.

(** The runner with an unbuffered completion channel while nobody
    receives. *)
Definition held s : Prop :=
  hasCompletedOnce (runner s) = Some (Chan.make 0) ∧
  chan_events (trace s) = [] ∧ waits s = [] ∧
  match at_ s with
  | AtClose _ | Exited => False
  | _ => True
  end.

(** The state without the record of what WaitForCompletion returned, and
    a schedule without the WaitForCompletion calls. *)
Definition without_waits s : process H :=
  {| runner := runner s; lastHash := lastHash s; at_ := at_ s; registry := registry s;
     hookRunCount := hookRunCount s; trace := trace s; waits := [] |}.

Definition without_Waiter (sched : list action) : list action :=
  omap (λ a, match a with Waiter => None | _ => Some a end) sched.

(** ** Lemmas *)

Lemma exec_app s l1 l2 : exec ctx s (l1 ++ l2) = exec ctx (exec ctx s l1) l2.
Proof. apply foldl_app. Qed.

(** A property kept by every step holds after every schedule. *)
Lemma exec_invariant (P : process H → Prop) s sched :
  P s → (∀ s' a, P s' → P (step ctx s' a)) → P (exec ctx s sched).
Proof.
  intros H0 Hstep. revert s H0.
  induction sched as [|a sched IH]; intros s H0; simpl; [done|].
  apply IH, Hstep, H0.
Qed.

Lemma sleeps_snoc t e :
  sleeps (t ++ [e]) = sleeps t ++ match e with EvSleep d => [d] | _ => [] end.
Proof. unfold sleeps. rewrite omap_app. by destruct e. Qed.


Lemma sync_inv_step n s a : sync_inv n s → sync_inv n (step ctx s a).
Proof.
  destruct s as [[hk bo [[buf cap cl] h] lg c] lh pc reg cnt tr ws].
  unfold sync_inv, slot_ok, fresh; simpl. intros ((-> & -> & Hlen) & c' & -> & Hcap & Hpc).
  destruct a; unfold step; simpl.
  1-3: destruct pc; simpl in *; try done;
      unfold Send, send, notify, Chan.select_send_default, Chan.send; simpl;
      repeat case_decide; simpl; (split; [repeat split; rewrite ?length_app; simpl; lia|]);
      exists c'; auto.
  - unfold run_step, sendCompletedOnceMessageIfApplicable, close_and_Goexit.
    destruct pc; simpl in *; try done.
    + unfold MustRegister, Register.
      destruct Hpc as [-> Hf]. rewrite decide_False by set_solver. simpl. eauto 10.
    + unfold Chan.recv; simpl. destruct buf as [|[] buf]; simpl; [eauto 10|].
      split; [repeat split; simpl in Hlen; lia|]. eauto.
    + case_decide; simpl; eauto 10.
    + destruct Hpc as (Hne & -> & -> & ->).
      destruct (Do hk ctx hash0) as [[e|] hk']; simpl;
        (split; [done|]); eexists; (split; [done|]); (split; [done|]);
        repeat split; unfold sync_trace; eauto.
    + destruct Hpc as (-> & -> & Htr). unfold Chan.send; simpl.
      case_decide; simpl; [|eauto 10].
      split; [done|]. eexists; split; [done|]. split; [done|].
      destruct Htr as (h' & err & -> & ->). unfold sync_trace. simpl. eauto 10.
    + destruct Hpc as (Hcl & (h' & err & -> & ->) & Hbuf).
      unfold Chan.close. rewrite Hcl. simpl.
      split; [done|]. eexists; split; [done|]. split; [done|]. split; [done|].
      eexists; split; [unfold sync_trace; simpl; eauto|].
      destruct Hbuf as [[? ?]|[? ?]]; [left|right]; split; auto.
      exists 0. done.
    + eauto 10.
  - unfold WaitForCompletion, Chan.recv, handoff; simpl.
    destruct pc; simpl in *; try done.
    + destruct Hpc as (-> & -> & -> & ->). simpl. naive_solver.
    + destruct Hpc as (-> & -> & ->). simpl. naive_solver.
    + destruct Hpc as (-> & -> & ->). simpl. naive_solver.
    + destruct Hpc as (? & -> & -> & ->). simpl. naive_solver.
    + destruct Hpc as (-> & -> & (h' & err & -> & ->)). simpl.
      split; [done|]. eexists; split; [done|]. split; [done|]. split; [done|].
      split; [unfold sync_trace; simpl; eauto|]. right. done.
    + destruct c' as [cb cn ccl]; simpl in *.
      destruct Hpc as (-> & Htr & [[-> ->]|[-> ->]]); simpl; naive_solver.
    + destruct c' as [cb cn ccl]; simpl in *.
      destruct Hpc as (-> & b & Htr & [[-> ->]|[-> [k ->]]]); simpl.
      * split; [done|]. eexists; split; [done|]. split; [done|]. split; [done|].
        exists b. split; [done|]. right. split; [done|]. by exists 0.
      * split; [done|]. eexists; split; [done|]. split; [done|]. split; [done|].
        exists b. split; [done|]. right. split; [done|]. exists (S k).
        by rewrite replicate_S_end.
Qed.

(** ** Single steps of the runner *)

Lemma step_Do_failure s h e hk' :
  at_ s = AtDo h → fails_with (hook (runner s)) h e hk' →
  let s1 := step ctx s Runner in
  at_ s1 = AtReport false ∧
  trace s1 = trace s ++ [EvDo h (Some e)] ∧
  lastHash s1 = lastHash s ∧
  hookRunCount s1 = updateHookRunCountMetric (hookRunCount s) (Name hk') "error" ∧
  logger (runner s1) = logger (runner s) ++ [(e, "hook failed")] ∧
  hook (runner s1) = hk' ∧
  data (runner s1) = data (runner s) ∧
  backoff (runner s1) = backoff (runner s) ∧
  hasCompletedOnce (runner s1) = hasCompletedOnce (runner s) ∧
  registry s1 = registry s ∧ waits s1 = waits s.
Proof.
  destruct s as [[hk bo d lg c] lh pc reg cnt tr ws]; simpl.
  intros -> HDo. unfold fails_with in HDo; simpl in HDo.
  unfold step, run_step; simpl. rewrite HDo. simpl. done.
Qed.

Lemma step_Do_success s h hk' :
  at_ s = AtDo h → succeeds_with (hook (runner s)) h hk' →
  let s1 := step ctx s Runner in
  at_ s1 = AtReport true ∧
  trace s1 = trace s ++ [EvDo h None] ∧
  lastHash s1 = h ∧
  hookRunCount s1 = updateHookRunCountMetric (hookRunCount s) (Name hk') "success" ∧
  logger (runner s1) = logger (runner s) ∧
  hook (runner s1) = hk' ∧
  data (runner s1) = data (runner s) ∧
  backoff (runner s1) = backoff (runner s) ∧
  hasCompletedOnce (runner s1) = hasCompletedOnce (runner s) ∧
  registry s1 = registry s ∧ waits s1 = waits s.
Proof.
  destruct s as [[hk bo d lg c] lh pc reg cnt tr ws]; simpl.
  intros -> HDo. unfold succeeds_with in HDo; simpl in HDo.
  unfold step, run_step; simpl. rewrite HDo. simpl. done.
Qed.



Lemma step_Get s :
  at_ s = AtGet →
  step ctx s Runner =
    goto s (if decide (get (data (runner s)) = lastHash s) then AtRange
            else AtDo (get (data (runner s)))).
Proof.
  destruct s as [[hk bo d lg c] lh pc reg cnt tr ws]; simpl. intros ->.
  unfold step, run_step; simpl. by case_decide.
Qed.


(** The range loop waits while the channel is open and empty. *)
Lemma step_Range_blocks s :
  at_ s = AtRange → Chan.buf (ch (data (runner s))) = [] →
  Chan.closed (ch (data (runner s))) = false →
  run_step ctx s = Blocks ∧ step ctx s Runner = s.
Proof.
  destruct s as [[hk bo [[buf cap cl] h] lg c] lh pc reg cnt tr ws]; simpl.
  intros -> -> ->. done.
Qed.

(** [Send] on a slot of the package stores the value and leaves exactly
    one notification pending. *)
Lemma send_slot_ok d h :
  slot_ok d → send d h = Done {| ch := Chan.Mk [()] 1 false; hash := h |}.
Proof.
  destruct d as [[buf cap cl] h0]. unfold slot_ok; simpl. intros (-> & -> & Hlen).
  unfold send, notify, Chan.select_send_default, Chan.send; simpl.
  destruct buf as [|[] [|? ?]]; simpl in *; try lia; done.
Qed.

(** A [Send] that nothing interleaves with is its two halves in a row. *)
Lemma Send_in_two_steps s h :
  slot_ok (data (runner s)) →
  exec ctx s [Storing h; Signalling] = step ctx s (Producer h).
Proof.
  destruct s as [[hk bo d lg c] lh pc reg cnt tr ws]; simpl. intros Hok.
  unfold exec; simpl. unfold step; simpl.
  destruct (decide (pc = Panicked)) as [->|Hpc]; [done|]. simpl.
  rewrite decide_False by done. unfold Send; simpl. fold (send d h).
  rewrite (send_slot_ok _ _ Hok). done.
Qed.


(** ** Invariants of every schedule *)

(** Nothing ever unregisters the counter. *)
Lemma registry_step s a :
  hookRunCount_name ∈ registry s → hookRunCount_name ∈ registry (step ctx s a).
Proof.
  destruct s as [[hk bo [[buf cap cl] h] lg c] lh pc reg cnt tr ws]; simpl.
  intros Hreg. destruct a; unfold step; simpl.
  1-3: case_decide; [done|];
    unfold Send, send, notify, Chan.select_send_default, Chan.send; simpl;
    first [done | destruct cl; simpl; [done|]; case_decide; simpl; done].
  - case_decide; [done|].
    unfold run_step, sendCompletedOnceMessageIfApplicable, close_and_Goexit; simpl.
    destruct pc; simpl; try done.
    + unfold MustRegister, Register. case_decide; simpl; [done|set_solver].
    + unfold Chan.recv; simpl. destruct buf as [|[] ?]; simpl; [destruct cl|]; simpl; done.
    + case_decide; simpl; done.
    + destruct (Do hk ctx hash0) as [[e|] hk']; simpl; done.
    + destruct c as [[cb cn [|]]|]; simpl; unfold Chan.send; simpl;
        repeat case_decide; simpl; done.
    + destruct c as [[cb cn [|]]|]; simpl; done.
  - case_decide; [done|].
    unfold WaitForCompletion, Chan.recv, handoff; simpl.
    destruct c as [[[|v cb] cn [|]]|]; simpl; try done.
    destruct pc; simpl; done.
Qed.

Lemma executions_snoc t e :
  executions (t ++ [e]) = executions t ++ match e with EvDo h _ => [h] | _ => [] end.
Proof. unfold executions. rewrite omap_app. by destruct e. Qed.


Lemma quiet_step lh t cnt s a :
  sends_only lh a → quiet lh t cnt s → quiet lh t cnt (step ctx s a).
Proof.
  destruct s as [[hk bo [[buf cap cl] h] lg c] lh' pc reg cnt' tr ws].
  unfold quiet; simpl. intros Ha (-> & -> & -> & -> & Hpc).
  destruct a; unfold step; simpl.
  - case_decide; [done|]. rewrite (Ha hash0 (or_introl eq_refl)).
    unfold Send, send, notify, Chan.select_send_default, Chan.send; simpl.
    destruct cl; simpl; [done|]. case_decide; simpl; done.
  - case_decide; [done|]. by rewrite (Ha hash0 (or_intror eq_refl)).
  - case_decide; [done|].
    unfold notify, Chan.select_send_default, Chan.send; simpl.
    destruct cl; simpl; [done|]. case_decide; simpl; done.
  - case_decide; [done|].
    unfold run_step; simpl. destruct pc; simpl; try done.
    + unfold MustRegister, Register. case_decide; simpl; done.
    + unfold Chan.recv; simpl. destruct buf as [|[] ?]; simpl; [destruct cl|]; simpl; done.
    + rewrite decide_True by done. done.
  - case_decide; [done|].
    unfold WaitForCompletion, Chan.recv, handoff; simpl.
    destruct c as [[[|v cb] cn [|]]|]; simpl; try done.
    destruct pc; simpl; try done.
Qed.

Lemma exec_invariant_on (Q : action → Prop) (P : process H → Prop) s sched :
  Forall Q sched → P s → (∀ s' a, Q a → P s' → P (step ctx s' a)) → P (exec ctx s sched).
Proof.
  intros HQ H0 Hstep. revert s H0.
  induction HQ as [|a sched Ha _ IH]; intros s H0; simpl; [done|].
  apply IH, Hstep; done.
Qed.

(** ** The retry loop of the runner without a completion channel *)



(** Producers at work while the runner is busy elsewhere. *)
Lemma step_producer s a :
  by_producers a → at_ s ≠ Panicked → slot_ok (data (runner s)) →
  let s1 := step ctx s a in
  get (data (runner s1)) = last_stored (get (data (runner s))) [a] ∧
  slot_ok (data (runner s1)) ∧
  at_ s1 = at_ s ∧ lastHash s1 = lastHash s ∧ trace s1 = trace s ∧
  backoff (runner s1) = backoff (runner s) ∧
  hasCompletedOnce (runner s1) = hasCompletedOnce (runner s).
Proof.
  destruct s as [[hk bo [[buf cap cl] h] lg c] lh pc reg cnt tr ws].
  unfold slot_ok; simpl. intros Ha Hpc (-> & -> & Hlen).
  destruct a; try done; unfold step; simpl; rewrite decide_False by done;
    unfold Send, send, notify, Chan.select_send_default, Chan.send; simpl;
    repeat case_decide; simpl; repeat split; auto; rewrite ?length_app; simpl; lia.
Qed.


(** Whether the channel is nil never changes. *)
Lemma nil_channel_step s a :
  hasCompletedOnce (runner (step ctx s a)) = None ↔ hasCompletedOnce (runner s) = None.
Proof.
  destruct s as [[hk bo [[buf cap cl] h] lg c] lh pc reg cnt tr ws]; simpl.
  destruct a; unfold step; simpl.
  1-3: case_decide; [done|];
    unfold Send, send, notify, Chan.select_send_default, Chan.send; simpl;
    first [done | destruct cl; simpl; [done|]; case_decide; simpl; done].
  - case_decide; [done|].
    unfold run_step, sendCompletedOnceMessageIfApplicable, close_and_Goexit; simpl.
    destruct pc; simpl; try done.
    + unfold MustRegister, Register. case_decide; simpl; done.
    + unfold Chan.recv; simpl. destruct buf as [|[] ?]; simpl; [destruct cl|]; simpl; done.
    + case_decide; simpl; done.
    + destruct (Do hk ctx hash0) as [[e|] hk']; simpl; done.
    + destruct c as [[cb cn [|]]|]; simpl; unfold Chan.send; simpl;
        repeat case_decide; simpl; done.
    + destruct c as [[cb cn [|]]|]; simpl; done.
  - case_decide; [done|].
    unfold WaitForCompletion, Chan.recv, handoff; simpl.
    destruct c as [[[|v cb] cn [|]]|]; simpl; try done.
    destruct pc; simpl; done.
Qed.




Lemma sync_inv_exec hk bo lg n sched :
  sync_inv n (exec ctx (start (NewHookRunner hk bo NewHookData lg (Some (Chan.make n)))) sched).
Proof.
  apply exec_invariant; [|intros; by apply sync_inv_step].
  unfold sync_inv, slot_ok, fresh; simpl. split; [auto|]. eexists; repeat split; eauto.
Qed.

(** C6: when the fetched value equals lastHash the runner skips the hook
    and goes back to waiting on the range loop; however the runner, a
    waiter and producers re-sending that same value are scheduled
    afterwards, the hook is not run, nothing is counted and lastHash
    stays as it is. *)
Theorem equal_hash_is_skipped (s : process H) (sched : list action) :
  at_ s = AtGet → get (data (runner s)) = lastHash s →
  Forall (sends_only (lastHash s)) sched →
  run_step ctx s = Done (goto s AtRange) ∧
  let s' := exec ctx s (Runner :: sched) in
  executions (trace s') = executions (trace s) ∧
  trace s' = trace s ∧ hookRunCount s' = hookRunCount s ∧ lastHash s' = lastHash s.
Proof.
  intros Hat Hget Hsched. split.
  - unfold run_step. rewrite Hat. simpl. by rewrite decide_True.
  - cbv zeta. change (exec ctx s (Runner :: sched)) with (exec ctx (step ctx s Runner) sched).
    rewrite step_Get, decide_True by done.
    assert (quiet (lastHash s) (trace s) (hookRunCount s) (exec ctx (goto s AtRange) sched))
      as (_ & Hlh & Htr & Hcnt & _).
    { eapply exec_invariant_on; [exact Hsched| |intros; by apply quiet_step].
      unfold quiet; simpl. done. }
    by rewrite Htr, Hcnt, Hlh.
Qed.

(** C8: lastHash starts as the empty string, so as long as the only
    value ever sent is the empty string the hook is never run, whatever
    the schedule and whether or not a completion channel is set. *)
Theorem empty_hash_is_never_run hk bo lg c (sched : list action) :
  Forall (sends_only "") sched →
  let s := exec ctx (start (NewHookRunner hk bo NewHookData lg c)) sched in
  lastHash (start (NewHookRunner hk bo NewHookData lg c)) = "" ∧
  executions (trace s) = [] ∧ trace s = [] ∧ hookRunCount s = ∅ ∧ lastHash s = "".
Proof.
  intros Hsched. cbv zeta.
  assert (quiet "" [] ∅ (exec ctx (start (NewHookRunner hk bo NewHookData lg c)) sched))
    as (_ & Hlh & Htr & Hcnt & _).
  { eapply exec_invariant_on; [exact Hsched| |intros; by apply quiet_step].
    unfold quiet; simpl. done. }
  by rewrite Htr, Hcnt, Hlh.
Qed.










(** C5: without a completion channel WaitForCompletion returns its
    misuse error at once; on an open, empty channel it blocks; on a
    channel holding a message it returns nil for true and the
    completed-with-error error for false.  In every schedule of a runner
    made with a completion channel, no call has returned as long as
    nothing was sent on the channel, and the first call that returns
    reports the outcome of the one execution the runner made. *)
Theorem WaitForCompletion_translates_first_outcome :
  (∀ r : HookRunner H, hasCompletedOnce r = None →
     WaitForCompletion r =
       Done (Some "HookRunner.WaitForCompletion called on async runner", r)) ∧
  (∀ (r : HookRunner H) c, hasCompletedOnce r = Some c →
     Chan.buf c = [] → Chan.closed c = false → WaitForCompletion r = Blocks) ∧
  (∀ (r : HookRunner H) c b rest, hasCompletedOnce r = Some c → Chan.buf c = b :: rest →
     ∃ r', WaitForCompletion r =
             Done (if b then None else Some "exechook completed with error", r') ∧
           hasCompletedOnce r' = Some (Chan.Mk rest (Chan.cap c) (Chan.closed c))) ∧
  (∀ hk bo lg n (sched : list action),
     let s := exec ctx (start (NewHookRunner hk bo NewHookData lg (Some (Chan.make n)))) sched in
     (chan_events (trace s) = [] → waits s = [] ∧ WaitForCompletion (runner s) = Blocks) ∧
     (∀ w ws, waits s = w :: ws →
        ∃ b, outcomes (trace s) = [b] ∧
             w = if b then None else Some "exechook completed with error")).
Proof.
  split; [|split; [|split]].
  - intros r Hc. unfold WaitForCompletion. by rewrite Hc.
  - intros r c Hc Hbuf Hcl. unfold WaitForCompletion, Chan.recv. by rewrite Hc, Hbuf, Hcl.
  - intros r c b rest Hc Hbuf. unfold WaitForCompletion, Chan.recv. rewrite Hc, Hbuf.
    eexists. split; [by destruct b|]. done.
  - intros hk bo lg n sched. cbv zeta. set (s := exec ctx _ sched).
    destruct (sync_inv_exec hk bo lg n sched) as (_ & c & Hc & Hcap & Hpc). fold s in Hc, Hpc.
    unfold fresh, sync_trace in Hpc. unfold WaitForCompletion. rewrite Hc.
    split.
    + intros Hev. destruct (at_ s); try done.
      * by destruct Hpc as (_ & -> & _ & ->).
      * by destruct Hpc as (-> & _ & ->).
      * by destruct Hpc as (-> & _ & ->).
      * by destruct Hpc as (_ & -> & _ & ->).
      * by destruct Hpc as (-> & -> & _).
      * destruct Hpc as (_ & (h & err & Htr & _) & _). by rewrite Htr in Hev.
      * destruct Hpc as (_ & b & (h & err & Htr & _) & _). by rewrite Htr in Hev.
    + intros w ws Hw. destruct (at_ s); try done.
      * destruct Hpc as (_ & _ & _ & Hws). congruence.
      * destruct Hpc as (_ & _ & Hws). congruence.
      * destruct Hpc as (_ & _ & Hws). congruence.
      * destruct Hpc as (_ & _ & _ & Hws). congruence.
      * destruct Hpc as (_ & Hws & _). congruence.
      * destruct Hpc as (_ & (h & err & -> & ->) & [[_ Hws]|[_ Hws]]); [congruence|].
        rewrite Hws in Hw. injection Hw as <- <-. by eexists.
      * destruct Hpc as (_ & b & (h & err & -> & ->) & [[_ Hws]|[_ (k & Hws)]]); [congruence|].
        rewrite Hws in Hw. injection Hw as <- <-. by eexists.
Qed.

(** C9: on a closed and drained channel WaitForCompletion returns the
    completed-with-error error at once and leaves the runner as it is.
    In every schedule of a runner made with a completion channel, every
    call after the first one that returned got that error, whatever the
    first one got; and once the goroutine has exited and the message has
    been taken, one more call returns the error without blocking. *)
Theorem WaitForCompletion_after_close_is_error :
  (∀ (r : HookRunner H) c, hasCompletedOnce r = Some c →
     Chan.buf c = [] → Chan.closed c = true →
     WaitForCompletion r = Done (Some "exechook completed with error", r)) ∧
  (∀ hk bo lg n (sched : list action),
     let s := exec ctx (start (NewHookRunner hk bo NewHookData lg (Some (Chan.make n)))) sched in
     (∀ w ws, waits s = w :: ws →
        Forall (λ w', w' = Some "exechook completed with error") ws) ∧
     (at_ s = Exited → waits s ≠ [] →
        WaitForCompletion (runner s) = Done (Some "exechook completed with error", runner s) ∧
        waits (step ctx s Waiter) = waits s ++ [Some "exechook completed with error"])).
Proof.
  assert (∀ (r : HookRunner H) c, hasCompletedOnce r = Some c →
     Chan.buf c = [] → Chan.closed c = true →
     WaitForCompletion r = Done (Some "exechook completed with error", r)) as Hlocal.
  { intros [hk bo d lg c'] c; simpl. intros -> Hbuf Hcl.
    unfold WaitForCompletion, Chan.recv; simpl. by rewrite Hbuf, Hcl. }
  split; [exact Hlocal|].
  intros hk bo lg n sched. cbv zeta. set (s := exec ctx _ sched).
  destruct (sync_inv_exec hk bo lg n sched) as (_ & c & Hc & Hcap & Hpc). fold s in Hc, Hpc.
  unfold fresh, sync_trace in Hpc. split.
  - intros w ws Hw. destruct (at_ s); try done.
    + destruct Hpc as (_ & _ & _ & Hws). congruence.
    + destruct Hpc as (_ & _ & Hws). congruence.
    + destruct Hpc as (_ & _ & Hws). congruence.
    + destruct Hpc as (_ & _ & _ & Hws). congruence.
    + destruct Hpc as (_ & Hws & _). congruence.
    + destruct Hpc as (_ & _ & [[_ Hws]|[_ Hws]]); [congruence|].
      rewrite Hws in Hw. injection Hw as <- <-. done.
    + destruct Hpc as (_ & b & _ & [[_ Hws]|[_ (k & Hws)]]); [congruence|].
      rewrite Hws in Hw. injection Hw as <- <-. by apply Forall_replicate.
  - intros Hat Hne. rewrite Hat in Hpc.
    destruct Hpc as (Hcl & b & _ & [[_ Hws]|[Hbuf _]]); [done|].
    pose proof (Hlocal (runner s) c Hc Hbuf Hcl) as HW. split; [done|].
    unfold step. rewrite Hat, HW. simpl.
    destruct s as [r lh pc reg cnt tr ws]. by destruct r.
Qed.

Lemma refused_step cnt s a : refused cnt s → refused cnt (step ctx s a).
Proof.
  destruct s as [[hk bo [[buf cap cl] h] lg c] lh pc reg cnt' tr ws].
  unfold refused; simpl. intros (Hreg & -> & -> & Hpc).
  destruct a; unfold step; simpl.
  1-3: case_decide; [done|];
    unfold Send, send, notify, Chan.select_send_default, Chan.send; simpl;
    first [done | destruct cl; simpl; [by auto|]; case_decide; simpl; done].
  - case_decide; [done|]. destruct Hpc as [-> | ->]; [|done].
    unfold run_step, MustRegister, Register; simpl.
    rewrite decide_True by done. simpl. repeat split; auto.
  - case_decide; [done|]. destruct Hpc as [-> | ->]; [|done].
    unfold WaitForCompletion, Chan.recv, handoff; simpl.
    destruct c as [[[|v cb] cn [|]]|]; simpl; repeat split; auto.
Qed.

(** C10: the first Run in a process registers the counter and reaches
    the range loop; from then on the counter stays registered, so a
    second Run, on any runner, panics at MustRegister: its goroutine
    never gets past the registration, receives no notification and runs
    no hook, in every schedule. *)
Theorem second_Run_panics_at_registration hk bo lg c
    (sched : list action) (r2 : HookRunner H) :
  let first := start (NewHookRunner hk bo NewHookData lg c) in
  let s1 := exec ctx first (Runner :: sched) in
  at_ (step ctx first Runner) = AtRange ∧
  hookRunCount_name ∈ registry s1 ∧
  let s2 := Run r2 (registry s1) (hookRunCount s1) in
  run_step ctx s2 = Panics ∧
  at_ (step ctx s2 Runner) = Panicked ∧
  ∀ sched',
    let s' := exec ctx s2 sched' in
    (at_ s' = AtRegister ∨ at_ s' = Panicked) ∧
    trace s' = [] ∧ hookRunCount s' = hookRunCount s1.
Proof.
  cbv zeta. split; [done|].
  set (s1 := exec ctx (start (NewHookRunner hk bo NewHookData lg c)) (Runner :: sched)).
  assert (hookRunCount_name ∈ registry s1) as Hreg.
  { unfold s1.
    change (exec ctx ?s (Runner :: sched)) with (exec ctx (step ctx s Runner) sched).
    apply (exec_invariant (λ s, hookRunCount_name ∈ registry s));
      [|intros; by apply registry_step].
    simpl. set_solver. }
  split; [done|]. split; [|split].
  - unfold run_step, MustRegister, Register; simpl. by rewrite decide_True.
  - unfold step, run_step, MustRegister, Register; simpl. by rewrite decide_True.
  - intros sched'.
    assert (refused (hookRunCount s1)
                    (exec ctx (Run r2 (registry s1) (hookRunCount s1)) sched'))
      as (_ & ? & ? & ?); [|done].
    apply (exec_invariant (refused (hookRunCount s1))); [|intros; by apply refused_step].
    unfold refused; simpl. auto.
Qed.

(** Only a [Send] changes the stored value. *)
Lemma get_stable_step s a :
  ¬ stores a → get (data (runner (step ctx s a))) = get (data (runner s)).
Proof.
  destruct s as [[hk bo [[buf cap cl] h] lg c] lh pc reg cnt tr ws]; simpl.
  intros Ha. destruct a; try (by destruct Ha); unfold step; simpl.
  - case_decide; [done|].
    unfold notify, Chan.select_send_default, Chan.send; simpl.
    destruct cl; simpl; [done|]. case_decide; simpl; done.
  - case_decide; [done|].
    unfold run_step, sendCompletedOnceMessageIfApplicable, close_and_Goexit; simpl.
    destruct pc; simpl; try done.
    + unfold MustRegister, Register. case_decide; simpl; done.
    + unfold Chan.recv; simpl. destruct buf as [|[] ?]; simpl; [destruct cl|]; simpl; done.
    + case_decide; simpl; done.
    + destruct (Do hk ctx hash0) as [[e|] hk']; simpl; done.
    + destruct c as [[cb cn [|]]|]; simpl; unfold Chan.send; simpl;
        repeat case_decide; simpl; done.
    + destruct c as [[cb cn [|]]|]; simpl; done.
  - case_decide; [done|].
    unfold WaitForCompletion, Chan.recv, handoff; simpl.
    destruct c as [[[|v cb] cn [|]]|]; simpl; try done.
    destruct pc; simpl; done.
Qed.

(** C7: on a slot of this package (capacity one, never closed) Send
    returns, neither blocking nor panicking, with its argument stored and
    exactly one notification pending: the notification is queued when the
    channel was empty and dropped when it was full.  After any burst of
    Send calls Get returns the value of the last one, whatever was stored
    or sent before; and no step of the runner, of a waiter or of the
    second half of a Send changes what Get returns. *)
Theorem send_keeps_only_the_latest (d : hookData) (hs : list string) (h : string)
    (s : process H) (sched : list action) :
  slot_ok d → Forall (λ a, ¬ stores a) sched →
  send d h = Done {| ch := Chan.Mk [()] 1 false; hash := h |} ∧
  (∃ d', sends d (hs ++ [h]) = Done d' ∧ get d' = h ∧
         events d' = Chan.Mk [()] 1 false ∧ slot_ok d') ∧
  get (data (runner (exec ctx s sched))) = get (data (runner s)).
Proof.
  intros Hok Hsched. split; [by apply send_slot_ok|]. split.
  - clear s sched Hsched. revert d Hok.
    induction hs as [|h0 hs IH]; intros d Hok; simpl.
    + rewrite (send_slot_ok d h Hok). eexists. split; [done|]. unfold slot_ok; simpl. auto.
    + rewrite (send_slot_ok d h0 Hok). apply IH. unfold slot_ok; simpl. auto.
  - apply (exec_invariant_on (λ a, ¬ stores a)
             (λ s', get (data (runner s')) = get (data (runner s)))); [done|done|].
    intros s' a Ha Hs'. by rewrite get_stable_step.
Qed.

(** ** Further properties of the code *)

Ltac framed_tac :=
  repeat split;
  first [ done | by left | (right; eexists; split; done) | (intros ? ?; by left) ].

Lemma step_frame s a :
  (∃ h, at_ s = AtDo h ∧ a = Runner) ∨ framed s (step ctx s a) a.
Proof.
  destruct s as [[hk bo [[buf cap cl] h] lg c] lh pc reg cnt tr ws].
  unfold framed; simpl.
  destruct a; unfold step; simpl.
  1-3: right; case_decide; [subst; framed_tac|];
    unfold Send, send, notify, Chan.select_send_default, Chan.send; simpl;
    first [by framed_tac | destruct cl; simpl; [framed_tac|]; case_decide; simpl; framed_tac].
  - case_decide; [right; subst; framed_tac|].
    unfold run_step, sendCompletedOnceMessageIfApplicable, close_and_Goexit; simpl.
    destruct pc; simpl; try (right; by framed_tac).
    + right. unfold MustRegister, Register. case_decide; simpl; framed_tac.
    + right. unfold Chan.recv; simpl.
      destruct buf as [|[] ?]; simpl; [destruct cl|]; simpl; framed_tac.
    + right. case_decide; simpl; repeat split; auto; intros h' [= <-]; auto 10.
    + left. eauto.
    + right. destruct c as [[cb cn [|]]|]; simpl; unfold Chan.send; simpl;
        repeat case_decide; simpl; try destruct b; framed_tac.
    + right. destruct c as [[cb cn [|]]|]; simpl; framed_tac.
  - right. case_decide; [subst; framed_tac|].
    unfold WaitForCompletion, Chan.recv, handoff; simpl.
    destruct c as [[[|v cb] cn [|]]|]; simpl; try (by framed_tac).
    destruct pc; simpl; framed_tac.
Qed.

Lemma attempts_snoc t e :
  attempts (t ++ [e]) = attempts t ++ match e with EvDo h err => [(h, err)] | _ => [] end.
Proof. unfold attempts. rewrite omap_app. by destruct e. Qed.

Lemma framed_attempts s s' a : framed s s' a → attempts (trace s') = attempts (trace s).
Proof.
  intros (_ & _ & _ & _ & [-> | (e & -> & He)] & _); [done|].
  rewrite attempts_snoc. destruct e; try done; by rewrite app_nil_r.
Qed.

Lemma last_success_snoc lh t e :
  last_success lh (t ++ [e]) =
  match e with EvDo h None => h | _ => last_success lh t end.
Proof. unfold last_success. by rewrite foldl_app. Qed.

Lemma fresh_runs_snoc t e : ∀ lh,
  fresh_runs lh (t ++ [e]) ↔
  fresh_runs lh t ∧ match e with EvDo h _ => h ≠ last_success lh t | _ => True end.
Proof.
  induction t as [|e0 t IH]; intros lh; simpl.
  - destruct e; simpl; tauto.
  - destruct e0 as [h0 [e0|]| | |]; simpl; rewrite IH; tauto.
Qed.

(** What the hook call itself does, whatever its result. *)
Lemma step_Do s h :
  at_ s = AtDo h →
  let r := Do (hook (runner s)) ctx h in
  let s1 := step ctx s Runner in
  at_ s1 = AtReport (bool_decide (r.1 = None)) ∧
  trace s1 = trace s ++ [EvDo h r.1] ∧
  lastHash s1 = match r.1 with None => h | Some _ => lastHash s end ∧
  hookRunCount s1 =
    updateHookRunCountMetric (hookRunCount s) (Name r.2)
      (match r.1 with None => "success" | Some _ => "error" end) ∧
  logger (runner s1) =
    logger (runner s) ++ match r.1 with None => [] | Some e => [(e, "hook failed")] end ∧
  hook (runner s1) = r.2.
Proof.
  intros Hat. cbv zeta.
  destruct (Do (hook (runner s)) ctx h) as [[e|] hk'] eqn:HDo; simpl.
  - destruct (step_Do_failure s h e hk' Hat HDo) as (? & ? & ? & ? & ? & ? & _). done.
  - destruct (step_Do_success s h hk' Hat HDo) as (? & ? & ? & ? & -> & ? & _).
    by rewrite app_nil_r.
Qed.


Lemma slot_inv_step s a : slot_inv s → slot_inv (step ctx s a).
Proof.
  destruct s as [[hk bo [[buf cap cl] h] lg c] lh pc reg cnt tr ws].
  unfold slot_inv, slot_ok; simpl. intros ((-> & -> & Hlen) & Hpc).
  destruct a; unfold step; simpl.
  1-3: case_decide; [done|];
    unfold Send, send, notify, Chan.select_send_default, Chan.send; simpl;
    repeat case_decide; simpl; repeat split; auto; rewrite ?length_app; simpl; lia.
  - case_decide; [done|].
    unfold run_step, sendCompletedOnceMessageIfApplicable, close_and_Goexit; simpl.
    destruct pc; simpl; try done.
    + unfold MustRegister, Register. case_decide; simpl; done.
    + unfold Chan.recv; simpl. destruct buf as [|[] ?]; simpl; [done|].
      repeat split; auto. simpl in Hlen. lia.
    + case_decide; simpl; done.
    + destruct (Do hk ctx hash0) as [[e|] hk']; simpl; done.
    + destruct c as [[cb cn [|]]|]; simpl; unfold Chan.send; simpl;
        repeat case_decide; simpl; try destruct b; done.
    + destruct c as [[cb cn [|]]|]; simpl; done.
  - case_decide; [done|].
    unfold WaitForCompletion, Chan.recv, handoff; simpl.
    destruct c as [[[|v cb] cn [|]]|]; simpl; try done.
    destruct pc; simpl; done.
Qed.

(** X5: in every schedule of a process started on a fresh slot, whatever
    the runner, the notification channel is open and holds at most one
    notification, Run has not returned, and a Send goes through: it
    neither blocks nor panics, stores its argument and leaves exactly one
    notification pending. *)
Theorem slot_never_backs_up hk bo lg c (sched : list action) :
  let s := exec ctx (start (NewHookRunner hk bo NewHookData lg c)) sched in
  Chan.closed (events (data (runner s))) = false ∧
  length (Chan.buf (events (data (runner s)))) ≤ 1 ∧
  at_ s ≠ Returned ∧
  ∀ h, ∃ r', Send (runner s) h = Done r' ∧ get (data r') = h ∧
             Chan.buf (events (data r')) = [()].
Proof.
  cbv zeta. set (s := exec ctx _ sched).
  assert (slot_inv s) as (Hok & Hpc).
  { apply exec_invariant; [|intros; by apply slot_inv_step].
    unfold slot_inv, slot_ok; simpl. repeat split; auto. }
  destruct Hok as (Hcl & Hcap & Hlen). repeat split; try done.
  intros h. unfold Send. rewrite (send_slot_ok (data (runner s)) h); [|done].
  eexists. done.
Qed.



Lemma failure_log_snoc t e :
  failure_log (t ++ [e]) =
  failure_log t ++ match e with EvDo _ (Some err) => [(err, "hook failed")] | _ => [] end.
Proof.
  unfold failure_log. rewrite attempts_snoc, omap_app.
  by destruct e as [h [err|]| | |].
Qed.

(** X2: in every schedule the logger has been given, after what it held
    at construction, one "hook failed" entry per failed hook call, with
    the error of that call, in the order of the calls, and nothing else. *)
Theorem logger_gets_every_failure hk bo lg c (sched : list action) :
  let s := exec ctx (start (NewHookRunner hk bo NewHookData lg c)) sched in
  logger (runner s) = lg ++ failure_log (trace s).
Proof.
  cbv zeta.
  apply (exec_invariant (λ s, logger (runner s) = lg ++ failure_log (trace s))).
  { simpl. by rewrite app_nil_r. }
  intros s a IH. destruct (step_frame s a) as [(h & Hat & ->) | Hfr].
  - destruct (step_Do s h Hat) as (_ & -> & _ & _ & -> & _).
    rewrite IH, failure_log_snoc, <- app_assoc.
    by destruct (Do (hook (runner s)) ctx h).1.
  - pose proof (framed_attempts _ _ _ Hfr) as Hatt.
    destruct Hfr as (_ & _ & -> & _). unfold failure_log. by rewrite Hatt.
Qed.

Lemma remembered_step s a : remembered s → remembered (step ctx s a).
Proof.
  intros (Hlh & Hfresh & Hdo).
  destruct (step_frame s a) as [(h & Hat & ->) | Hfr].
  - destruct (step_Do s h Hat) as (Hat1 & Htr & Hlh1 & _).
    unfold remembered. rewrite Htr, Hlh1, Hat1, last_success_snoc, fresh_runs_snoc, <- Hlh.
    split; [by destruct (Do (hook (runner s)) ctx h).1|].
    split; [split; [done|by apply Hdo]|]. done.
  - destruct Hfr as (_ & _ & _ & Hlh' & Htr & Hat).
    unfold remembered. rewrite Hlh'. split; [|split].
    + destruct Htr as [-> | (e & -> & He)]; [done|].
      rewrite last_success_snoc. by destruct e.
    + destruct Htr as [-> | (e & -> & He)]; [done|].
      rewrite fresh_runs_snoc. by destruct e.
    + intros h Hh. destruct (Hat h Hh) as [Hs | (_ & _ & _ & Hne)]; [by apply Hdo|done].
Qed.

(** X3: in every schedule lastHash is the hash of the last successful
    hook call (the empty string before the first), and every hook call
    was on a hash other than the one of the last success before it: the
    hook is never run again on the value it last succeeded on. *)
Theorem lastHash_is_last_success hk bo lg c (sched : list action) :
  let s := exec ctx (start (NewHookRunner hk bo NewHookData lg c)) sched in
  lastHash s = last_success "" (trace s) ∧ fresh_runs "" (trace s).
Proof.
  cbv zeta.
  assert (remembered (exec ctx (start (NewHookRunner hk bo NewHookData lg c)) sched))
    as (? & ? & _); [|done].
  apply exec_invariant; [|intros; by apply remembered_step].
  unfold remembered; simpl. done.
Qed.

Lemma framed_executions s s' a : framed s s' a → executions (trace s') = executions (trace s).
Proof.
  intros (_ & _ & _ & _ & [-> | (e & -> & He)] & _); [done|].
  rewrite executions_snoc. destruct e; try done; by rewrite app_nil_r.
Qed.

Lemma sent_only_step stored s a :
  sent_only stored s → sent_only (stored ++ stored_values [a]) (step ctx s a).
Proof.
  intros (HA & HB & HC).
  destruct (decide (at_ s = Panicked)) as [Hp|Hp].
  { assert (step ctx s a = s) as ->.
    { unfold step. by rewrite decide_True. }
    split; [|split]; [| |by left].
    - intros h Hh. apply elem_of_app. left. by apply HA.
    - intros h Hh. congruence. }
  destruct HC as [?|(Hinv & HC)]; [done|].
  assert (stores a ∨ ¬ stores a) as [Hst|Hst] by (destruct a; simpl; tauto).
  - assert (∃ h, stored_values [a] = [h] ∧ last_stored (get (data (runner s))) [a] = h)
      as (h & -> & Hlast) by (destruct a; try done; by eexists).
    destruct (step_producer s a) as (Hg & Hok & Hat & Hlh & Htr & _); [by destruct a|done|apply Hinv|].
    split; [|split].
    + intros h' Hh'. rewrite Htr in Hh'. apply elem_of_app. left. by apply HA.
    + intros h' Hh'. rewrite Hat in Hh'. apply elem_of_app. left. by apply HB.
    + right. split.
      * split; [done|]. rewrite Hat. apply Hinv.
      * left. rewrite Hg, Hlast. apply elem_of_app. right. by apply list_elem_of_singleton.
  - assert (stored_values [a] = []) as -> by (by destruct a; try done; destruct Hst).
    rewrite app_nil_r.
    pose proof (get_stable_step s a Hst) as Hget.
    pose proof (slot_inv_step s a Hinv) as Hinv'.
    destruct (step_frame s a) as [(h & Hat & ->) | Hfr].
    + destruct (step_Do s h Hat) as (Hat1 & Htr & Hlh1 & _).
      assert (h ∈ stored) as Hh by (by apply HB).
      split; [|split].
      * intros h'. rewrite Htr, executions_snoc. intros [?|Hin]%elem_of_app; [by apply HA|].
        apply list_elem_of_singleton in Hin. by subst.
      * intros h'. rewrite Hat1. done.
      * right. split; [done|]. rewrite Hget.
        destruct HC as [?|(-> & _)]; [by left|]. by apply elem_of_nil in Hh.
    + pose proof (framed_executions _ _ _ Hfr) as Hex.
      destruct Hfr as (_ & _ & _ & Hlh & _ & Hat).
      split; [|split].
      * intros h. rewrite Hex. apply HA.
      * intros h Hh. destruct (Hat h Hh) as [?|(_ & _ & -> & Hne)]; [by apply HB|].
        destruct HC as [?|(_ & Hd & Hl)]; [done|]. congruence.
      * right. split; [done|]. by rewrite Hget, Hlh.
Qed.

(** X4: in every schedule the hook has only been called on values that
    producers stored in the slot through Send: the runner never runs the
    hook on a value nobody sent, in particular not on the empty string
    the slot starts with. *)
Theorem hook_runs_only_what_was_sent hk bo lg c (sched : list action) :
  let s := exec ctx (start (NewHookRunner hk bo NewHookData lg c)) sched in
  ∀ h, h ∈ executions (trace s) → h ∈ stored_values sched.
Proof.
  cbv zeta.
  assert (sent_only (stored_values sched)
            (exec ctx (start (NewHookRunner hk bo NewHookData lg c)) sched)) as (HA & _);
    [|done].
  induction sched as [|a sched IH] using rev_ind.
  - unfold sent_only, slot_inv, slot_ok; simpl. split; [|split]; [by intros | by intros |].
    right. split; [repeat split; auto|]. right. done.
  - rewrite exec_app. unfold stored_values. rewrite omap_app.
    apply (sent_only_step _ _ a IH).
Qed.




Ltac one_shot_tac He Hs :=
  rewrite ?executions_snoc, ?sleeps_snoc, ?app_nil_r, ?He, ?Hs; simpl;
  first [done | split; [done|]; split; [done|]; first [by left | by right]].

Lemma one_shot_step s a : one_shot s → one_shot (step ctx s a).
Proof.
  destruct s as [[hk bo [[buf cap cl] h] lg c] lh pc reg cnt tr ws].
  unfold one_shot; simpl. intros (Hc & Hs & Hpc).
  destruct a; unfold step; simpl.
  1-3: case_decide; [done|];
    unfold Send, send, notify, Chan.select_send_default, Chan.send; simpl;
    repeat (first [case_decide | destruct cl]; simpl);
    first [done
          | split; [done|]; split; [done|];
            destruct Hpc as [[? ?]|[? ?]]; [by left|by right]].
  - case_decide; [done|].
    unfold run_step, sendCompletedOnceMessageIfApplicable, close_and_Goexit; simpl.
    destruct pc; simpl; destruct Hpc as [[He Hp]|[He Hp]]; try done;
      try (by one_shot_tac He Hs).
    + unfold MustRegister, Register. case_decide; simpl; one_shot_tac He Hs.
    + unfold Chan.recv; simpl.
      destruct buf as [|[] ?]; simpl; [destruct cl|]; simpl; one_shot_tac He Hs.
    + case_decide; simpl; one_shot_tac He Hs.
    + destruct (Do hk ctx hash0) as [[e|] hk']; simpl; one_shot_tac He Hs.
    + destruct c as [[cb cn [|]]|]; simpl; unfold Chan.send; simpl;
        repeat case_decide; simpl; one_shot_tac He Hs.
    + destruct c as [[cb cn [|]]|]; simpl; one_shot_tac He Hs.
  - case_decide; [done|].
    unfold WaitForCompletion, Chan.recv, handoff; simpl.
    destruct c as [[[|v cb] cn [|]]|]; simpl; try done.
    destruct pc; simpl; try done.
    destruct Hpc as [[He Hp]|[He Hp]]; [done|]. one_shot_tac He Hs.
Qed.

(** X7: a runner made with a completion channel, whatever that channel
    holds or whether it is closed, calls the hook at most once and never
    sleeps, in every schedule. *)
Theorem completion_channel_means_one_attempt hk bo lg c0 (sched : list action) :
  let s := exec ctx (start (NewHookRunner hk bo NewHookData lg (Some c0))) sched in
  length (executions (trace s)) ≤ 1 ∧ sleeps (trace s) = [] ∧ at_ s ≠ AtSleep.
Proof.
  cbv zeta.
  assert (one_shot (exec ctx (start (NewHookRunner hk bo NewHookData lg (Some c0))) sched))
    as (_ & Hs & Hpc).
  { apply exec_invariant; [|intros; by apply one_shot_step].
    unfold one_shot; simpl. split; [done|]. split; [done|]. by left. }
  split; [|split; [done|]].
  - destruct Hpc as [[-> _]|[-> _]]; simpl; lia.
  - intros Hat. rewrite Hat in Hpc. by destruct Hpc as [[_ ?]|[_ ?]].
Qed.

Lemma ends_failed_snoc b t e :
  ends_failed b (t ++ [e]) =
    match e with EvDo _ err => bool_decide (err ≠ None) | _ => false end.
Proof. unfold ends_failed. by rewrite foldl_app. Qed.

Lemma paced_snoc bo t : ∀ b e,
  paced bo b t → paced bo (ends_failed b t) [e] → paced bo b (t ++ [e]).
Proof.
  induction t as [|x t IH]; intros b e Ht He; [done|].
  destruct x as [h err|d|v|]; simpl in *; try done.
  - destruct Ht as [-> Ht]. split; [done|]. by apply IH.
  - destruct Ht as (-> & -> & Ht). split; [done|]. split; [done|]. by apply IH.
Qed.

Lemma pacing_step bo s a : pacing bo s → pacing bo (step ctx s a).
Proof.
  destruct s as [[hk bo' [[buf cap cl] h] lg c] lh pc reg cnt tr ws].
  unfold pacing; simpl. intros (-> & -> & Hp & Hpc).
  destruct a; unfold step; simpl.
  1-3: case_decide; [done|];
    unfold Send, send, notify, Chan.select_send_default, Chan.send; simpl;
    repeat (first [case_decide | destruct cl]; simpl); done.
  - case_decide; [done|].
    unfold run_step, sendCompletedOnceMessageIfApplicable, close_and_Goexit; simpl.
    destruct pc as [| | |h0|[|]| | | | |]; simpl; try done.
    + unfold MustRegister, Register. case_decide; simpl; done.
    + unfold Chan.recv; simpl. destruct buf as [|[] ?]; simpl; [destruct cl|]; simpl; done.
    + case_decide; simpl; done.
    + destruct (Do hk ctx h0) as [[e|] hk']; simpl;
        rewrite ends_failed_snoc; (split; [done|]); (split; [done|]);
        (split; [apply paced_snoc; [done|by rewrite Hpc]|done]).
    + rewrite ends_failed_snoc. split; [done|]. split; [done|].
      split; [apply paced_snoc; [done|by rewrite Hpc]|done].
  - case_decide; [done|]. done.
Qed.

(** X8: the trace of a runner without a completion channel is, in every
    schedule, a sequence of successful hook calls and of failed hook calls
    each followed by one sleep of the configured backoff before the next
    call: no retry without the sleep, no sleep without a failure, no
    channel event. *)
Theorem retries_are_paced_by_backoff hk bo lg (sched : list action) :
  let s := exec ctx (start (NewHookRunner hk bo NewHookData lg None)) sched in
  paced bo false (trace s) ∧
  (at_ s = AtSleep → ends_failed false (trace s) = true) ∧
  (∀ h, at_ s = AtDo h → ends_failed false (trace s) = false).
Proof.
  cbv zeta.
  assert (pacing bo (exec ctx (start (NewHookRunner hk bo NewHookData lg None)) sched))
    as (_ & _ & Hp & Hpc).
  { apply exec_invariant; [done|]. intros; by apply pacing_step. }
  split; [done|]. split.
  - intros Hat. by rewrite Hat in Hpc.
  - intros h Hat. by rewrite Hat in Hpc.
Qed.

Lemma held_step s a : a ≠ Waiter → held s → held (step ctx s a).
Proof.
  destruct s as [[hk bo [[buf cap cl] h] lg c] lh pc reg cnt tr ws].
  unfold held; simpl. intros Ha (-> & He & -> & Hpc).
  destruct a; unfold step; simpl; [| | | |done].
  1-3: case_decide; [done|];
    unfold Send, send, notify, Chan.select_send_default, Chan.send; simpl;
    repeat (first [case_decide | destruct cl]; simpl); done.
  case_decide; [done|].
  unfold run_step, sendCompletedOnceMessageIfApplicable, close_and_Goexit; simpl.
  destruct pc; simpl; try done.
  - unfold MustRegister, Register. case_decide; simpl; done.
  - unfold Chan.recv; simpl. destruct buf as [|[] ?]; simpl; [destruct cl|]; simpl; done.
  - case_decide; simpl; done.
  - destruct (Do hk ctx hash0) as [[e|] hk']; simpl;
      unfold chan_events in *; rewrite omap_app, He; done.
  - unfold chan_events in *. rewrite omap_app, He. done.
Qed.

(** X9: with an unbuffered completion channel, as long as nobody calls
    WaitForCompletion the runner's report does not go through: the runner
    stays blocked on the send, the channel sees neither a send nor a
    close, and the goroutine does not exit. *)
Theorem unbuffered_report_waits_for_receiver hk bo lg (sched : list action) :
  Forall (λ a, a ≠ Waiter) sched →
  let s := exec ctx (start (NewHookRunner hk bo NewHookData lg (Some (Chan.make 0)))) sched in
  chan_events (trace s) = [] ∧ at_ s ≠ Exited ∧
  (∀ b, at_ s ≠ AtClose b) ∧
  (∀ b, at_ s = AtReport b → run_step ctx s = Blocks).
Proof.
  intros Hsched. cbv zeta.
  assert (held (exec ctx (start (NewHookRunner hk bo NewHookData lg (Some (Chan.make 0)))) sched))
    as (Hc & He & _ & Hpc).
  { apply (exec_invariant_on (λ a, a ≠ Waiter)); [done|done|].
    intros s' a Ha Hs'. by apply held_step. }
  split; [done|]. split; [|split].
  - intros Hat. by rewrite Hat in Hpc.
  - intros b Hat. by rewrite Hat in Hpc.
  - intros b Hat. unfold run_step. rewrite Hat.
    unfold sendCompletedOnceMessageIfApplicable. rewrite Hc. done.
Qed.

Lemma step_without_waits s a :
  hasCompletedOnce (runner s) = None →
  without_waits (step ctx s a) =
    match a with
    | Waiter => without_waits s
    | _ => step ctx (without_waits s) a
    end.
Proof.
  destruct s as [[hk bo [[buf cap cl] h] lg c] lh pc reg cnt tr ws]; simpl.
  intros ->.
  destruct a; unfold step; simpl.
  1-3: case_decide; [done|];
    unfold Send, send, notify, Chan.select_send_default, Chan.send; simpl;
    repeat (first [case_decide | destruct cl]; simpl); done.
  - case_decide; [done|].
    unfold run_step, sendCompletedOnceMessageIfApplicable, close_and_Goexit; simpl.
    destruct pc as [| | |h0|[|]|[|]| | | |]; simpl; try done.
    + unfold MustRegister, Register. case_decide; simpl; done.
    + unfold Chan.recv; simpl. destruct buf as [|[] ?]; simpl; [destruct cl|]; simpl; done.
    + case_decide; simpl; done.
    + destruct (Do hk ctx h0) as [[e|] hk']; simpl; done.
  - case_decide; done.
Qed.

Lemma exec_without_waits sched : ∀ s,
  hasCompletedOnce (runner s) = None →
  without_waits (exec ctx s sched) = exec ctx (without_waits s) (without_Waiter sched).
Proof.
  induction sched as [|a sched IH]; intros s Hc; [done|].
  change (exec ctx s (a :: sched)) with (exec ctx (step ctx s a) sched).
  rewrite IH by (by apply nil_channel_step).
  rewrite (step_without_waits s a Hc). by destruct a.
Qed.

(** X10: calls of WaitForCompletion do not interfere with a runner that
    has no completion channel: in every schedule, the runner, its
    lastHash, its program point, the metrics and the trace are those of
    the same schedule with the WaitForCompletion calls left out. *)
Theorem WaitForCompletion_leaves_async_Run_alone hk bo lg (sched : list action) :
  let r := NewHookRunner hk bo NewHookData lg None in
  without_waits (exec ctx (start r) sched) = exec ctx (start r) (without_Waiter sched).
Proof. cbv zeta. by rewrite exec_without_waits. Qed.

End Facts.

(** * Worked schedules *)

Example concrete_scenario_abc :
  let s := exec () (start (sync_runner [])) (until_Do "abc" ++ [Runner; Runner; Runner; Waiter]) in
  executions (trace s) = ["abc"] ∧ lastHash s = "abc" ∧ waits s = [None].
Proof. vm_compute. done. Qed.

Example concrete_scenario_h1_h2 :
  let s := exec () (start (async_runner [Some "boom"]))
             ([Producer "h1"; Runner; Runner; Runner; Runner; Producer "h2"]
              ++ [Runner; Runner; Runner; Runner; Runner]) in
  trace s = [EvDo "h1" (Some "boom"); EvSleep 10; EvDo "h2" None] ∧
  lastHash s = "h2" ∧ at_ s = AtRange ∧
  hookRunCount s !! ("exechook", "error") = Some 1 ∧
  hookRunCount s !! ("exechook", "success") = Some 1.
Proof. vm_compute. done. Qed.

Example concrete_scenario_no_Send :
  let s := exec () (start (async_runner [])) [Runner; Runner; Runner; Runner] in
  at_ s = AtRange ∧ trace s = [] ∧ hookRunCount s = ∅.
Proof. vm_compute. done. Qed.

(** ** The runner with a completion channel stops after its first outcome *)




(** ** The theorems at concrete schedules *)





Lemma WaitForCompletion_translates_first_outcome_witness :
  waits (exec () (start (sync_runner [])) waited_once) = [None] ∧
  ∃ b, outcomes (trace (exec () (start (sync_runner [])) waited_once)) = [b] ∧
       None = (if b then None else Some "exechook completed with error").
Proof.
  assert (H1 : waits (exec () (start (sync_runner [])) waited_once) = [None])
    by (vm_compute; reflexivity).
  split; [exact H1|].
  destruct (WaitForCompletion_translates_first_outcome (H := scripted) ()) as (_ & _ & _ & D).
  exact (proj2 (D (exechook []) 10%Z [] 1 waited_once) None [] H1).
Defined.

Lemma WaitForCompletion_after_close_is_error_witness :
  waits (exec () (start (sync_runner [])) waited_twice) =
    [None; Some "exechook completed with error"] ∧
  Forall (λ w', w' = Some "exechook completed with error")
         [Some "exechook completed with error"].
Proof.
  assert (H1 : waits (exec () (start (sync_runner [])) waited_twice) =
               [None; Some "exechook completed with error"]) by (vm_compute; reflexivity).
  split; [exact H1|].
  destruct (WaitForCompletion_after_close_is_error (H := scripted) ()) as (_ & D).
  exact (proj1 (D (exechook []) 10%Z [] 1 waited_twice)
           None [Some "exechook completed with error"] H1).
Defined.

Lemma equal_hash_is_skipped_witness :
  at_ (exec () (start (async_runner [])) refetched_abc) = AtGet ∧
  get (data (runner (exec () (start (async_runner [])) refetched_abc))) =
    lastHash (exec () (start (async_runner [])) refetched_abc) ∧
  Forall (sends_only (lastHash (exec () (start (async_runner [])) refetched_abc)))
         [Producer "abc"; Runner; Storing "abc"; Waiter; Runner; Signalling; Runner] ∧
  run_step () (exec () (start (async_runner [])) refetched_abc) =
    Done (goto (exec () (start (async_runner [])) refetched_abc) AtRange) ∧
  executions (trace (exec () (exec () (start (async_runner [])) refetched_abc)
                       (Runner :: [Producer "abc"; Runner; Storing "abc"; Waiter; Runner; Signalling; Runner]))) =
    executions (trace (exec () (start (async_runner [])) refetched_abc)).
Proof.
  assert (H1 : at_ (exec () (start (async_runner [])) refetched_abc) = AtGet)
    by (vm_compute; reflexivity).
  assert (H2 : get (data (runner (exec () (start (async_runner [])) refetched_abc))) =
               lastHash (exec () (start (async_runner [])) refetched_abc))
    by (vm_compute; reflexivity).
  assert (H3 : Forall (sends_only (lastHash (exec () (start (async_runner [])) refetched_abc)))
                      [Producer "abc"; Runner; Storing "abc"; Waiter; Runner; Signalling; Runner]).
  { repeat (constructor;
      [intros h [Heq|Heq];
       first [discriminate Heq | injection Heq as <-; vm_compute; reflexivity]|]).
    constructor. }
  split; [exact H1|]. split; [exact H2|]. split; [exact H3|].
  destruct (equal_hash_is_skipped () _ _ H1 H2 H3) as (A & B & _).
  split; [exact A|exact B].
Defined.

Lemma empty_hash_is_never_run_witness :
  Forall (sends_only "") [Producer ""; Runner; Runner; Runner; Storing ""; Runner; Signalling; Runner; Waiter] ∧
  executions (trace (exec () (start (sync_runner [Some "boom"]))
     [Producer ""; Runner; Runner; Runner; Storing ""; Runner; Signalling; Runner; Waiter])) = [] ∧
  hookRunCount (exec () (start (sync_runner [Some "boom"]))
     [Producer ""; Runner; Runner; Runner; Storing ""; Runner; Signalling; Runner; Waiter]) = ∅.
Proof.
  assert (H1 : Forall (sends_only "")
                 [Producer ""; Runner; Runner; Runner; Storing ""; Runner; Signalling; Runner; Waiter]).
  { repeat (constructor;
      [intros h [Heq|Heq];
       first [discriminate Heq | injection Heq as <-; reflexivity]|]).
    constructor. }
  split; [exact H1|].
  destruct (empty_hash_is_never_run () (exechook [Some "boom"]) 10 [] (Some (Chan.make 1)) _ H1)
    as (_ & A & _ & B & _).
  split; [exact A|exact B].
Defined.

Lemma send_keeps_only_the_latest_witness :
  slot_ok NewHookData ∧
  Forall (λ a, ¬ stores a) [Runner; Runner; Signalling; Runner; Waiter] ∧
  send NewHookData "h3" = Done {| ch := Chan.Mk [()] 1 false; hash := "h3" |} ∧
  (∃ d', sends NewHookData (["h1"; "h2"] ++ ["h3"]) = Done d' ∧ get d' = "h3" ∧
         events d' = Chan.Mk [()] 1 false ∧ slot_ok d') ∧
  get (data (runner (exec () (step () (start (async_runner [])) (Producer "h3"))
                       [Runner; Runner; Signalling; Runner; Waiter]))) =
    get (data (runner (step () (start (async_runner [])) (Producer "h3")))).
Proof.
  assert (H1 : slot_ok NewHookData) by (unfold slot_ok; simpl; repeat split; lia).
  assert (H2 : Forall (λ a, ¬ stores a) [Runner; Runner; Signalling; Runner; Waiter])
    by (repeat constructor; intros []).
  split; [exact H1|]. split; [exact H2|].
  exact (send_keeps_only_the_latest () NewHookData ["h1"; "h2"] "h3"
           (step () (start (async_runner [])) (Producer "h3"))
           [Runner; Runner; Signalling; Runner; Waiter] H1 H2).
Defined.



Lemma hook_runs_only_what_was_sent_witness :
  "h1" ∈ executions (trace (exec () (start (async_runner [Some "e1"])) failed_then_succeeded)) ∧
  "h1" ∈ stored_values failed_then_succeeded.
Proof.
  assert (H1 : "h1" ∈ executions
                 (trace (exec () (start (async_runner [Some "e1"])) failed_then_succeeded)))
    by (vm_compute; constructor).
  split; [exact H1|].
  exact (hook_runs_only_what_was_sent () (exechook [Some "e1"]) 10 [] None
           failed_then_succeeded "h1" H1).
Defined.


Lemma unbuffered_report_waits_for_receiver_witness :
  Forall (λ a, a ≠ Waiter) unwaited ∧
  at_ (exec () (start (unbuffered_runner [])) unwaited) = AtReport true ∧
  chan_events (trace (exec () (start (unbuffered_runner [])) unwaited)) = [] ∧
  run_step () (exec () (start (unbuffered_runner [])) unwaited) = Blocks.
Proof.
  assert (H1 : Forall (λ a, a ≠ Waiter) unwaited)
    by (unfold unwaited; repeat (constructor; [discriminate|]); constructor).
  assert (H2 : at_ (exec () (start (unbuffered_runner [])) unwaited) = AtReport true)
    by (vm_compute; reflexivity).
  split; [exact H1|]. split; [exact H2|].
  destruct (unbuffered_report_waits_for_receiver () (exechook []) 10 [] unwaited H1)
    as (A & _ & _ & D).
  split; [exact A|exact (D true H2)].
Defined.
